(** * directories.py: the project tree listing

    The script opens [project_structure.txt] for writing in the current
    working directory and, for every directory that [os.walk(".")] yields,
    prunes the excluded names from the list of subdirectories, writes the
    directory's line and then one line per file.

    The development is a shallow embedding: the string helpers the script
    calls ([str.count], [os.path.basename], [os.path.join], [str * int]) are
    functions on [string], the file system seen by [os.walk] is a finite tree
    of names, [os.walk] is a function over that tree which takes the loop body
    as an argument (the body edits [dirs] in place before the walk goes on),
    and the run of the whole script is a function on a small [world] record.

    What is taken from the platform: path strings are POSIX ones ([os.sep] is
    the slash); every directory of the tree can be scanned and none is reached
    through a symbolic link, so that the walk goes into every name it keeps;
    the order in which a scan lists the entries of a directory is the order
    of the lists of the tree; every name can be encoded in the output file.

    The file is built from the calls [f.write] of the script.  Each call
    writes a text that ends with a newline; the properties speak of these
    writes as the lines of the output, and [text_lines] shows that they are
    the lines of the file whenever no name holds a newline itself.  A line
    is told to belong to a directory by the block it is written in: the walk
    pairs every path string it yields with what the body wrote for it. *)

From Stdlib Require Import String Ascii List Bool Arith Lia Permutation.
Import ListNotations.
Open Scope string_scope.
Open Scope list_scope.

Set Warnings "-register-all".

(** String concatenation, written apart from the [++] of lists. *)
Infix "+++" := String.append (right associativity, at level 60).

(* ================================================================= *)
(** ** Strings *)

(** [os.sep] and the line terminator written by the script. *)
Definition sep : ascii := "/"%char.
Definition newline : ascii := ascii_of_nat 10.
Definition nl : string := String newline EmptyString.

(** [s.count(os.sep)]. *)
Fixpoint count_sep (s : string) : nat :=
  match s with
  | EmptyString => 0
  | String c r => (if Ascii.eqb c sep then 1 else 0) + count_sep r
  end.

(** [s.count("\n")]. *)
Fixpoint count_nl (s : string) : nat :=
  match s with
  | EmptyString => 0
  | String c r => (if Ascii.eqb c newline then 1 else 0) + count_nl r
  end.

(** [s * n] on strings. *)
Fixpoint str_mul (s : string) (n : nat) : string :=
  match n with
  | O => EmptyString
  | S k => s +++ str_mul s k
  end.

(** [n] space characters. *)
Definition spaces (n : nat) : string := str_mul " " n.

(** [s.startswith("/")] and [s.endswith("/")]. *)
Definition starts_with_sep (s : string) : bool :=
  match s with
  | EmptyString => false
  | String c _ => Ascii.eqb c sep
  end.

Fixpoint ends_with_sep (s : string) : bool :=
  match s with
  | EmptyString => false
  | String c EmptyString => Ascii.eqb c sep
  | String _ r => ends_with_sep r
  end.

(** [os.path.join(a, b)] of [posixpath], for two arguments. *)
Definition join (a b : string) : string :=
  if starts_with_sep b then b
  else if (String.eqb a EmptyString || ends_with_sep a)%bool then a +++ b
  else a +++ String sep b.

(** [os.path.basename(p)] of [posixpath]: what follows the last slash,
    [p[p.rfind("/") + 1:]]. *)
Fixpoint basename (p : string) : string :=
  match p with
  | EmptyString => EmptyString
  | String c r =>
      if Nat.eqb (count_sep r) 0
      then (if Ascii.eqb c sep then r else p)
      else basename r
  end.

(** [s.split("/")]: the components between the slashes. *)
Fixpoint split_sep (s : string) : list string :=
  match s with
  | EmptyString => [EmptyString]
  | String c r =>
      if Ascii.eqb c sep then EmptyString :: split_sep r
      else match split_sep r with
           | [] => [String c EmptyString]
           | h :: q => String c h :: q
           end
  end.

(** [f.readlines()] on a file that holds [s]: the lines, each with the
    newline that ends it. *)
Fixpoint readlines (s : string) : list string :=
  match s with
  | EmptyString => []
  | String c r =>
      if Ascii.eqb c newline then String c EmptyString :: readlines r
      else match readlines r with
           | [] => [String c EmptyString]
           | h :: q => String c h :: q
           end
  end.

(* ================================================================= *)
(** ** The directory tree *)

(** A directory as a scan of it reports it: the names of the entries that are
    not directories, and the subdirectories with their names, each list in
    the order of the scan. *)
Inductive tree : Type :=
| Node (files : list string) (subdirs : list (string * tree)).

Definition files_of (t : tree) : list string :=
  match t with Node files _ => files end.

Definition subdirs_of (t : tree) : list (string * tree) :=
  match t with Node _ subs => subs end.

(** The directory a name denotes inside a directory. *)
Fixpoint find_sub (d : string) (subs : list (string * tree)) : option tree :=
  match subs with
  | [] => None
  | (n, t) :: rest => if String.eqb n d then Some t else find_sub d rest
  end.

(** The directory at the end of a path of names below [t]. *)
Fixpoint resolve (t : tree) (p : list string) : option tree :=
  match p with
  | [] => Some t
  | d :: q =>
      match find_sub d (subdirs_of t) with
      | Some t' => resolve t' q
      | None => None
      end
  end.

(** A name a directory entry can have: not empty and without a slash. *)
Definition name_ok (n : string) : bool :=
  negb (String.eqb n EmptyString) && Nat.eqb (count_sep n) 0.

(** No name occurs twice in the list. *)
Fixpoint distinct (l : list string) : bool :=
  match l with
  | [] => true
  | x :: r => negb (existsb (String.eqb x) r) && distinct r
  end.

(** A tree a file system can hold: every name is a legal one and the entries
    of one directory have different names. *)
Fixpoint wf (t : tree) : bool :=
  match t with
  | Node files subs =>
      forallb name_ok files
      && forallb name_ok (map fst subs)
      && distinct (files ++ map fst subs)
      && forallb (fun e => wf (snd e)) subs
  end.

(** A name without newline, and a tree of such names. *)
Definition plain (n : string) : bool := Nat.eqb (count_nl n) 0.


(* ================================================================= *)
(** ** os.walk *)

Section OsWalk.

(** What one pass of the loop body leaves behind. *)
Context {R : Type}.

(** The loop body, given [root], [dirs] and [files]: the list [dirs] as the
    body leaves it, and the body's result. *)
Variable body : string -> list string -> list string -> list string * R.

(** [os.walk(top, topdown=True)] over the directory [t] found at [top],
    driven by [body].  The directory is scanned, the triple is handed to
    the body, and the walk then goes down, in order, into each name still
    in [dirs]; a name that is no directory under [top] is passed over, as
    the scan of it raises an error the walk swallows.  The result pairs
    each yielded [root] with what the body did on it. *)
Fixpoint walk (top : string) (t : tree) {struct t} : list (string * R) :=
  match t with
  | Node files subs =>
      let '(dirs, r) := body top (map fst subs) files in
      (top, r) ::
      flat_map
        (fun dirname =>
           (fix scan (l : list (string * tree)) : list (string * R) :=
              match l with
              | [] => []
              | (n, t') :: l' =>
                  if String.eqb n dirname
                  then walk (join top dirname) t'
                  else scan l'
              end) subs)
        dirs
  end.

End OsWalk.

(* ================================================================= *)
(** ** The script *)

(** The names the script prunes. *)
Definition excluded_names : list string :=
  ["__pycache__"; "migrations"; "venv"; "env"; "static"; "media"].

(** [d in [...]] for that list. *)
Definition excluded (d : string) : bool :=
  existsb (String.eqb d) excluded_names.

(** The body of the [for] loop.  Each element of the second component is the
    argument of one [f.write]: the line of the directory, then the line of
    each file. *)
Definition loop_body (root : string) (dirs files : list string)
  : list string * list string :=
  let dirs := filter (fun d => negb (excluded d)) dirs in
  let level := count_sep root in
  let indent := str_mul "  " level in
  let line := indent +++ basename root +++ "/" +++ nl in
  let subindent := str_mul "  " (level + 1) in
  (dirs, line :: map (fun file => subindent +++ file +++ nl) files).

(** The loop over [os.walk(".", topdown=True)]: every [root] the walk yields
    with the writes made on it. *)
Definition listing (t : tree) : list (string * list string) :=
  walk loop_body "." t.

(** The directories the walk scans and yields, in order. *)
Definition visited (t : tree) : list string := map fst (listing t).

(** The arguments of the successive [f.write] calls. *)
Definition written (t : tree) : list string := flat_map snd (listing t).

(** What the file holds when it is closed. *)
Definition text (t : tree) : string := String.concat "" (written t).

(** The name of the output file. *)
Definition out_name : string := "project_structure.txt".

(** What a run depends on: the tree under the working directory, whether the
    process may create or truncate [out_name] there, the place at which a scan
    of the working directory lists an entry that has just been created, and
    what [out_name] holds at present (of no meaning while the tree has no
    such file). *)
Record world : Type := World {
  cwd : tree;
  writable : bool;
  slot : nat;
  stored : string
}.

(** The tree once [open(out_name, "w")] has succeeded: the file is there,
    where it was if it existed and at [slot] if it is new. *)
Definition touch (k : nat) (t : tree) : tree :=
  match t with
  | Node files subs =>
      Node (if existsb (String.eqb out_name) files then files
            else firstn k files ++ out_name :: skipn k files) subs
  end.

(** Whether [open(out_name, "w")] succeeds: the process must be allowed to
    write, and the name must not be that of a directory. *)
Definition can_open (w : world) : bool :=
  writable w
  && negb (existsb (String.eqb out_name) (map fst (subdirs_of (cwd w)))).

Inductive event : Type :=
| Scan (path : string)
| Write (data : string).

Inductive outcome : Type :=
| Exited
| Raised_OSError.

(** The system calls of the loop, in order: each directory is scanned, then
    its lines are written. *)
Definition trace_of (l : list (string * list string)) : list event :=
  flat_map (fun v => Scan (fst v) :: map Write (snd v)) l.

(** A run of the script: how it ends, the scans and writes it made, and the
    world it leaves. *)
Definition main (w : world) : outcome * list event * world :=
  if can_open w then
    let t := touch (slot w) (cwd w) in
    (Exited, trace_of (listing t),
     {| cwd := t; writable := writable w; slot := slot w; stored := text t |})
  else (Raised_OSError, [], w).

(* ================================================================= *)
(** ** Paths, and the lines of the specification *)

(** The path string of the directory reached from [top] by the names [p]:
    what the walk builds by joining one name at a time. *)
Definition path_from (top : string) (p : list string) : string :=
  fold_left join p top.

(** The path string of a directory below the root of the walk. *)
Definition path_of (p : list string) : string := path_from "." p.

(** No name along the path is pruned. *)
Definition allowed (p : list string) : bool :=
  forallb (fun d => negb (excluded d)) p.

(** A path the walk can stand at: not empty, no slash at its end. *)
Definition top_ok (top : string) : Prop :=
  top <> "" /\ ends_with_sep top = false.

(** The writes of the body on the directory [d] reached at [root]. *)
Definition block_at (root : string) (d : tree) : list string :=
  snd (loop_body root (map fst (subdirs_of d)) (files_of d)).

(** The line the specification gives for the directory at path [p] below the
    root: two spaces per level, the directory's name (the root's is the
    dot), a slash.  The newline ends the write. *)
Definition dir_line (p : list string) : string :=
  spaces (2 * length p) +++ last p "." +++ "/" +++ nl.

(** The line the specification gives for the file [f] of a directory at
    depth [depth]. *)
Definition file_line (depth : nat) (f : string) : string :=
  spaces (2 * (depth + 1)) +++ f +++ nl.


(** The tree without the subdirectories whose names the script prunes, at
    every level. *)
Fixpoint erase (t : tree) : tree :=
  match t with
  | Node files subs =>
      Node files
           (flat_map
              (fun e => if excluded (fst e) then []
                        else [(fst e, erase (snd e))])
              subs)
  end.

(** The listing as a recursion on the tree: the line of the directory under
    the name it is given, the lines of its files, then, in the order of the
    scan, the listing of each subdirectory that is not pruned, one level
    deeper. *)
Fixpoint render (depth : nat) (name : string) (t : tree) : list string :=
  match t with
  | Node files subs =>
      (spaces (2 * depth) +++ name +++ "/" +++ nl)
      :: map (file_line depth) files
      ++ flat_map
           (fun e => if excluded (fst e) then []
                     else render (S depth) (fst e) (snd e))
           subs
  end.

(* ================================================================= *)
(** ** Sample inputs *)

(** A tree after the example of the specification, [venv/] and [src/main.py],
    with more in it: a directory beneath [venv/], a file named [venv], a
    second excluded directory further down. *)
Definition sample : tree :=
  Node ["README.md"]
       [("venv", Node ["pyvenv.cfg"] [("lib", Node [] [])]);
        ("src", Node ["main.py"; "venv"]
                     [("static", Node ["a.css"] []); ("core", Node [] [])])].


(** A working directory that holds that tree, and an empty one, both writable;
    and the first one read-only. *)
Definition sample_world : world := World sample true 1 "".
Definition empty_world : world := World (Node [] []) true 0 "".
Definition locked_world : world := World sample false 0 "".

(** The sample tree with other things inside its excluded directories, and
    a tree with a file whose name holds a newline. *)
Definition sample' : tree :=
  Node ["README.md"]
       [("venv", Node [] []);
        ("src", Node ["main.py"; "venv"]
                     [("static", Node ["b.css"; "c.css"] [("img", Node [] [])]);
                      ("core", Node [] [])])].

Definition broken : tree :=
  Node ["two" +++ nl +++ "lines"] [("src", Node [] [])].


(* ================================================================= *)
(** ** Facts about the string helpers *)


Lemma append_assoc (a b c : string) : (a +++ b) +++ c = a +++ b +++ c.
Proof. induction a as [|x r IH]; simpl; [reflexivity | now rewrite IH]. Qed.




Lemma count_sep_append (a b : string) :
  count_sep (a +++ b) = count_sep a + count_sep b.
Proof. induction a as [|x r IH]; simpl; [reflexivity | rewrite IH; lia]. Qed.

Lemma count_sep_nl : count_sep nl = 0.
Proof. reflexivity. Qed.

Lemma str_mul_add (s : string) (n m : nat) :
  str_mul s (n + m) = str_mul s n +++ str_mul s m.
Proof.
  induction n as [|n IH]; simpl; [reflexivity|].
  now rewrite IH, append_assoc.
Qed.

(** The indent of a level is twice as many spaces. *)
Lemma indent_spaces (level : nat) : str_mul "  " level = spaces (2 * level).
Proof.
  unfold spaces. induction level as [|k IH]; [reflexivity|].
  replace (2 * S k) with (S (S (2 * k))) by lia. simpl str_mul at 1.
  rewrite IH. reflexivity.
Qed.


Lemma count_sep_spaces (n : nat) : count_sep (spaces n) = 0.
Proof. unfold spaces. induction n as [|n IH]; simpl; [reflexivity | exact IH]. Qed.

Lemma name_ok_iff (n : string) :
  name_ok n = true <-> n <> "" /\ count_sep n = 0.
Proof.
  unfold name_ok. rewrite andb_true_iff, negb_true_iff, String.eqb_neq, Nat.eqb_eq.
  reflexivity.
Qed.

Lemma starts_with_sep_count (s : string) :
  starts_with_sep s = true -> 0 < count_sep s.
Proof.
  destruct s as [|c r]; simpl; [discriminate|]. intros ->. lia.
Qed.

Lemma ends_with_sep_append (a b : string) :
  b <> "" -> ends_with_sep (a +++ b) = ends_with_sep b.
Proof.
  intros Hb. induction a as [|x r IH]; simpl; [reflexivity|].
  rewrite IH. destruct (r +++ b) eqn:E; [|reflexivity].
  destruct r; simpl in E; [contradiction | discriminate].
Qed.

Lemma ends_with_sep_count (s : string) :
  ends_with_sep s = true -> 0 < count_sep s.
Proof.
  induction s as [|c r IH]; simpl; [discriminate|].
  destruct r as [|c' r'].
  - intros ->. simpl. lia.
  - intros H. specialize (IH H). lia.
Qed.


Lemma top_ok_dot : top_ok ".".
Proof. split; [discriminate | reflexivity]. Qed.

(** On such a path [join] puts one slash before a legal name. *)
Lemma join_name (top n : string) :
  top_ok top -> name_ok n = true -> join top n = top +++ String sep n.
Proof.
  intros [Ht He] Hn. apply name_ok_iff in Hn as [_ Hc]. unfold join.
  destruct (starts_with_sep n) eqn:Es.
  - apply starts_with_sep_count in Es. lia.
  - rewrite He, orb_false_r.
    destruct (String.eqb_spec top ""); [contradiction | reflexivity].
Qed.

Lemma join_top_ok (top n : string) :
  top_ok top -> name_ok n = true -> top_ok (join top n).
Proof.
  intros Ht Hn. rewrite (join_name top n Ht Hn).
  apply name_ok_iff in Hn as [Hne Hc]. split.
  - destruct top; simpl; discriminate.
  - rewrite ends_with_sep_append by discriminate.
    destruct n as [|c r]; [contradiction|]. change (ends_with_sep (String c r) = false).
    destruct (ends_with_sep (String c r)) eqn:E; [|reflexivity].
    apply ends_with_sep_count in E. lia.
Qed.

Lemma basename_no_sep (n : string) : count_sep n = 0 -> basename n = n.
Proof.
  destruct n as [|c r]; simpl; [reflexivity|].
  destruct (Ascii.eqb c sep); simpl; [discriminate|].
  intros ->. reflexivity.
Qed.

Lemma basename_append (a n : string) :
  count_sep n = 0 -> basename (a +++ String sep n) = n.
Proof.
  intros Hn. induction a as [|x r IH]; simpl.
  - rewrite Hn. reflexivity.
  - rewrite count_sep_append. simpl. rewrite Hn.
    match goal with
    | |- context [Nat.eqb ?k 0] => destruct (Nat.eqb_spec k 0); [lia | exact IH]
    end.
Qed.

Lemma split_sep_no_sep (n : string) : count_sep n = 0 -> split_sep n = [n].
Proof.
  induction n as [|c r IH]; simpl; [reflexivity|].
  destruct (Ascii.eqb c sep); simpl; [discriminate|].
  intros H. rewrite (IH H). reflexivity.
Qed.

Lemma split_sep_not_nil (s : string) : split_sep s <> [].
Proof.
  destruct s as [|c r]; simpl; [discriminate|].
  destruct (Ascii.eqb c sep); [discriminate|].
  destruct (split_sep r); discriminate.
Qed.

Lemma split_sep_append (a b : string) :
  split_sep (a +++ String sep b) = split_sep a ++ split_sep b.
Proof.
  induction a as [|x r IH]; simpl; [reflexivity|].
  rewrite IH. destruct (Ascii.eqb x sep); [reflexivity|].
  destruct (split_sep r) eqn:E; [|reflexivity].
  now apply split_sep_not_nil in E.
Qed.

(* ================================================================= *)
(** ** Paths and trees *)


Lemma path_from_snoc (top : string) (p : list string) (n : string) :
  path_from top (p ++ [n]) = join (path_from top p) n.
Proof. unfold path_from. rewrite fold_left_app. reflexivity. Qed.

Lemma path_from_top_ok (top : string) (p : list string) :
  top_ok top -> forallb name_ok p = true -> top_ok (path_from top p).
Proof.
  revert top. induction p as [|n q IH]; intros top Ht Hp; simpl; [exact Ht|].
  simpl in Hp. apply andb_true_iff in Hp as [Hn Hq].
  apply IH; [apply join_top_ok|]; assumption.
Qed.

Lemma path_from_split (top : string) (p : list string) :
  top_ok top -> forallb name_ok p = true ->
  split_sep (path_from top p) = split_sep top ++ p.
Proof.
  revert top. induction p as [|n q IH]; intros top Ht Hp; simpl.
  - now rewrite app_nil_r.
  - simpl in Hp. apply andb_true_iff in Hp as [Hn Hq].
    change (split_sep (path_from (join top n) q) = split_sep top ++ n :: q).
    rewrite IH by (try apply join_top_ok; assumption).
    rewrite (join_name top n Ht Hn), split_sep_append.
    apply name_ok_iff in Hn as [_ Hc]. rewrite (split_sep_no_sep n Hc).
    now rewrite <- app_assoc.
Qed.

(** Two paths of legal names give one string only when they are equal. *)
Lemma path_from_inj (top : string) (p q : list string) :
  top_ok top -> forallb name_ok p = true -> forallb name_ok q = true ->
  path_from top p = path_from top q -> p = q.
Proof.
  intros Ht Hp Hq E. apply (f_equal split_sep) in E.
  rewrite !path_from_split in E by assumption.
  now apply app_inv_head in E.
Qed.

(** The level the script computes is the length of the path. *)
Lemma path_from_count (top : string) (p : list string) :
  top_ok top -> forallb name_ok p = true ->
  count_sep (path_from top p) = count_sep top + length p.
Proof.
  revert top. induction p as [|n q IH]; intros top Ht Hp; simpl; [lia|].
  simpl in Hp. apply andb_true_iff in Hp as [Hn Hq].
  change (count_sep (path_from (join top n) q) = count_sep top + S (length q)).
  rewrite IH by (try apply join_top_ok; assumption).
  rewrite (join_name top n Ht Hn), count_sep_append. simpl.
  apply name_ok_iff in Hn as [_ ->]. lia.
Qed.

(** The base name of a path is its last name. *)
Lemma path_from_basename (top : string) (p : list string) :
  top_ok top -> forallb name_ok p = true ->
  basename (path_from top p) = last p (basename top).
Proof.
  intros Ht Hp. destruct p as [|n q] using rev_ind; [reflexivity|].
  rewrite forallb_app in Hp. apply andb_true_iff in Hp as [Hq Hn].
  simpl in Hn. rewrite andb_true_r in Hn.
  rewrite path_from_snoc, last_last.
  rewrite join_name by (try apply path_from_top_ok; assumption).
  apply basename_append. now apply name_ok_iff in Hn.
Qed.

(** Induction on trees, with the hypothesis on every subdirectory. *)
Lemma tree_induction (P : tree -> Prop) :
  (forall files subs,
      Forall (fun e => P (snd e)) subs -> P (Node files subs)) ->
  forall t, P t.
Proof.
  intros step. fix self 1. intros [files subs]. apply step.
  induction subs as [|[n t'] rest IH]; constructor; [apply self | exact IH].
Qed.

Lemma find_sub_in (d : string) (subs : list (string * tree)) (t : tree) :
  find_sub d subs = Some t -> In (d, t) subs.
Proof.
  induction subs as [|[n t'] rest IH]; simpl; [discriminate|].
  destruct (String.eqb_spec n d) as [->|Hne].
  - intros [= ->]. now left.
  - intros H. right. auto.
Qed.

Lemma find_sub_name (d : string) (subs : list (string * tree)) (t : tree) :
  find_sub d subs = Some t -> In d (map fst subs).
Proof. intros H. apply find_sub_in in H. now apply (in_map fst) in H. Qed.

Lemma distinct_NoDup (l : list string) : distinct l = true -> NoDup l.
Proof.
  induction l as [|x r IH]; simpl; intros H; constructor;
    apply andb_true_iff in H as [Hx Hr]; [|auto].
  intros Hin. apply negb_true_iff in Hx.
  assert (existsb (String.eqb x) r = true) as E; [|congruence].
  apply existsb_exists. exists x. split; [exact Hin | apply String.eqb_refl].
Qed.

(** What [wf] says of one directory. *)
Lemma wf_node (files : list string) (subs : list (string * tree)) :
  wf (Node files subs) = true ->
  forallb name_ok files = true /\
  forallb name_ok (map fst subs) = true /\
  NoDup (files ++ map fst subs) /\
  (forall n t, In (n, t) subs -> wf t = true).
Proof.
  simpl. rewrite !andb_true_iff. intros [[[Hf Hd] Hn] Hs].
  repeat split; try assumption.
  - now apply distinct_NoDup.
  - intros n t Hin. rewrite forallb_forall in Hs. exact (Hs (n, t) Hin).
Qed.

(** Below a well-formed tree the names of a path are legal and the directory
    reached is well-formed. *)
Lemma resolve_wf (t : tree) (p : list string) (d : tree) :
  wf t = true -> resolve t p = Some d ->
  forallb name_ok p = true /\ wf d = true.
Proof.
  revert t. induction p as [|n q IH]; intros t Hwf Hr; simpl in Hr.
  - injection Hr as <-. now split.
  - destruct t as [files subs]. simpl in Hr.
    destruct (find_sub n subs) as [t'|] eqn:Ef; [|discriminate].
    apply wf_node in Hwf as (_ & Hd & _ & Hs).
    destruct (IH t' (Hs n t' (find_sub_in _ _ _ Ef)) Hr) as [Hq Hwd].
    split; [|exact Hwd]. simpl. rewrite Hq, andb_true_r.
    rewrite forallb_forall in Hd. apply Hd. eapply find_sub_name; eauto.
Qed.

(* ================================================================= *)
(** ** Facts about the walk *)

Lemma NoDup_flat_map {A B : Type} (g : A -> list B) (l : list A) :
  NoDup l ->
  (forall x, In x l -> NoDup (g x)) ->
  (forall x y z, In x l -> In y l -> x <> y -> In z (g x) -> ~ In z (g y)) ->
  NoDup (flat_map g l).
Proof.
  induction l as [|a r IH]; intros Hl Hg Hd; simpl; [constructor|].
  inversion Hl as [|? ? Ha Hr]; subst.
  apply NoDup_app.
  - apply Hg. now left.
  - apply IH; [assumption | intros; apply Hg; now right |].
    intros x y z Hx Hy. apply Hd; now right.
  - intros z Hz Hz'. apply in_flat_map in Hz' as (y & Hy & Hzy).
    apply (Hd a y z); [now left | now right | | assumption | assumption].
    intros ->. contradiction.
Qed.


Section WalkFacts.

Context {R : Type}.
Variable body : string -> list string -> list string -> list string * R.

(** The walk of a directory: the directory itself, then the walks of the
    names the body has left, each looked up among the subdirectories. *)
Lemma walk_unfold (top : string) (files : list string)
      (subs : list (string * tree)) :
  walk body top (Node files subs) =
  (top, snd (body top (map fst subs) files)) ::
  flat_map
    (fun d => match find_sub d subs with
              | Some t' => walk body (join top d) t'
              | None => []
              end)
    (fst (body top (map fst subs) files)).
Proof.
  simpl. destruct (body top (map fst subs) files) as [dirs r]. simpl.
  f_equal. apply flat_map_ext. intros d.
  induction subs as [|[n t'] rest IH]; [reflexivity|].
  simpl. destruct (String.eqb n d); [reflexivity | exact IH].
Qed.

(** The first directory yielded is the one the walk starts at. *)
Lemma walk_head (top : string) (t : tree) :
  exists rest,
    walk body top t
    = (top, snd (body top (map fst (subdirs_of t)) (files_of t))) :: rest.
Proof. destruct t as [files subs]. rewrite walk_unfold. eexists. reflexivity. Qed.

End WalkFacts.


(** The walk of the script yields exactly the directories reached by paths
    of names that are not pruned, each with the writes of the body on it. *)
Lemma walk_in_iff (t : tree) :
  forall top r ws,
    In (r, ws) (walk loop_body top t) <->
    exists p d,
      resolve t p = Some d /\ allowed p = true /\
      r = path_from top p /\ ws = block_at r d.
Proof.
  induction t as [files subs IH] using tree_induction.
  intros top r ws. rewrite walk_unfold. simpl. split.
  - intros [E | Hin].
    + injection E as <- <-. exists [], (Node files subs). now repeat split.
    + apply in_flat_map in Hin as (n & Hn & Hin).
      apply filter_In in Hn as [Hn Hex].
      destruct (find_sub n subs) as [t'|] eqn:Ef; [|contradiction].
      rewrite Forall_forall in IH.
      apply (IH (n, t') (find_sub_in _ _ _ Ef)) in Hin as (q & d & Hr & Ha & -> & ->).
      exists (n :: q), d. simpl. rewrite Ef, Hex. now repeat split.
  - intros (p & d & Hr & Ha & -> & ->). destruct p as [|n q].
    + injection Hr as <-. now left.
    + right. simpl in Hr, Ha.
      destruct (find_sub n subs) as [t'|] eqn:Ef; [|discriminate].
      apply andb_true_iff in Ha as [Hex Ha].
      apply in_flat_map. exists n. split.
      * apply filter_In. split; [eapply find_sub_name; eauto | exact Hex].
      * rewrite Ef. rewrite Forall_forall in IH.
        apply (IH (n, t') (find_sub_in _ _ _ Ef)). exists q, d. now repeat split.
Qed.

(** No directory is yielded twice by the walk of a well-formed tree. *)
Lemma walk_NoDup (t : tree) :
  forall top,
    wf t = true -> top_ok top -> NoDup (map fst (walk loop_body top t)).
Proof.
  induction t as [files subs IH] using tree_induction.
  intros top Hwf Ht. rewrite walk_unfold. simpl.
  pose proof (wf_node _ _ Hwf) as (_ & Hd & Hnd & Hs).
  rewrite Forall_forall in IH. rewrite forallb_forall in Hd.
  set (dirs := filter (fun d => negb (excluded d)) (map fst subs)).
  assert (Hsub : forall n z,
             In n dirs ->
             In z (map fst match find_sub n subs with
                           | Some t' => walk loop_body (join top n) t'
                           | None => []
                           end) ->
             exists q, forallb name_ok (n :: q) = true /\ z = path_from top (n :: q)).
  { intros n z Hn Hz. apply filter_In in Hn as [Hn _].
    destruct (find_sub n subs) as [t'|] eqn:Ef; [|contradiction].
    apply in_map_iff in Hz as ([r ws] & <- & Hin).
    apply walk_in_iff in Hin as (q & d & Hr & _ & -> & _).
    exists q. split; [|reflexivity]. simpl. rewrite (Hd n Hn). simpl.
    apply find_sub_in in Ef.
    exact (proj1 (resolve_wf t' q d (Hs n t' Ef) Hr)). }
  constructor.
  - rewrite flat_map_concat_map, concat_map, map_map, <- flat_map_concat_map.
    intros Hin. apply in_flat_map in Hin as (n & Hn & Hz).
    destruct (Hsub n top Hn Hz) as (q & Hq & E).
    apply (f_equal count_sep) in E.
    rewrite (path_from_count top (n :: q) Ht Hq) in E. simpl in E. lia.
  - rewrite flat_map_concat_map, concat_map, map_map, <- flat_map_concat_map.
    apply NoDup_flat_map.
    + apply NoDup_filter. now apply NoDup_app_remove_l in Hnd.
    + intros n Hn. apply filter_In in Hn as [Hn _].
      destruct (find_sub n subs) as [t'|] eqn:Ef; [|constructor].
      pose proof (find_sub_in _ _ _ Ef) as Hin.
      apply (IH (n, t') Hin); [exact (Hs n t' Hin) | apply join_top_ok; auto].
    + intros n n' z Hn Hn' Hne Hz Hz'.
      destruct (Hsub n z Hn Hz) as (q & Hq & E).
      destruct (Hsub n' z Hn' Hz') as (q' & Hq' & E').
      rewrite E in E'. apply (path_from_inj top _ _ Ht Hq Hq') in E'.
      congruence.
Qed.

(** On the path string of [p] the body writes these lines. *)
Lemma block_at_path (p : list string) (d : tree) :
  forallb name_ok p = true ->
  block_at (path_of p) d = dir_line p :: map (file_line (length p)) (files_of d).
Proof.
  intros Hp. unfold block_at, loop_body, path_of. simpl snd.
  rewrite (path_from_count "." p top_ok_dot Hp).
  rewrite (path_from_basename "." p top_ok_dot Hp).
  simpl count_sep. simpl basename. rewrite !indent_spaces. reflexivity.
Qed.


Lemma count_sep_file_line (k : nat) (f : string) :
  count_sep (file_line k f) = count_sep f.
Proof.
  unfold file_line. rewrite !count_sep_append, count_sep_spaces, count_sep_nl. lia.
Qed.


(** Every entry of the listing is the block of a directory reached by an
    allowed path. *)
Lemma listing_sound (t : tree) (r : string) (ws : list string) :
  wf t = true -> In (r, ws) (listing t) ->
  exists p d,
    resolve t p = Some d /\ allowed p = true /\ forallb name_ok p = true /\
    r = path_of p /\
    ws = dir_line p :: map (file_line (length p)) (files_of d).
Proof.
  intros Hwf Hin. apply walk_in_iff in Hin as (p & d & Hr & Ha & -> & ->).
  destruct (resolve_wf t p d Hwf Hr) as [Hp _].
  exists p, d. repeat split; try assumption.
  now apply block_at_path.
Qed.

(** Every directory reached by an allowed path has its block in the listing. *)
Lemma listing_complete (t : tree) (p : list string) (d : tree) :
  wf t = true -> resolve t p = Some d -> allowed p = true ->
  In (path_of p, dir_line p :: map (file_line (length p)) (files_of d))
     (listing t).
Proof.
  intros Hwf Hr Ha. destruct (resolve_wf t p d Hwf Hr) as [Hp _].
  rewrite <- (block_at_path p d Hp).
  apply walk_in_iff. exists p, d. now repeat split.
Qed.

Lemma visited_NoDup (t : tree) : wf t = true -> NoDup (visited t).
Proof. intros Hwf. apply walk_NoDup; [exact Hwf | exact top_ok_dot]. Qed.

(** A directory yielded at the path string of [p] is the directory at [p]. *)
Lemma visited_path (t : tree) (p : list string) (d : tree) :
  wf t = true -> resolve t p = Some d -> In (path_of p) (visited t) ->
  allowed p = true.
Proof.
  intros Hwf Hr Hin. apply in_map_iff in Hin as ([r ws] & E & Hin).
  simpl in E. subst r.
  apply (listing_sound t _ _ Hwf) in Hin as (q & e & _ & Ha & Hq & E & _).
  destruct (resolve_wf t p d Hwf Hr) as [Hp _].
  apply (path_from_inj "." p q top_ok_dot Hp Hq) in E. now subst q.
Qed.

Lemma in_trace_scan (l : list (string * list string)) (r : string) :
  In (Scan r) (trace_of l) <-> In r (map fst l).
Proof.
  unfold trace_of. rewrite in_flat_map, in_map_iff. split.
  - intros ([r' ws] & Hin & [E | H]).
    + injection E as ->. now exists (r, ws).
    + apply in_map_iff in H as (x & E & _). discriminate.
  - intros ([r' ws] & E & Hin). simpl in E. subst r'.
    exists (r, ws). split; [exact Hin | now left].
Qed.

Lemma touch_has_file (k : nat) (t : tree) :
  existsb (String.eqb out_name) (files_of (touch k t)) = true.
Proof.
  destruct t as [files subs]. cbn [touch files_of].
  destruct (existsb (String.eqb out_name) files) eqn:E; [exact E|].
  apply existsb_exists. exists out_name. split; [|apply String.eqb_refl].
  apply in_or_app. right. now left.
Qed.

Lemma touch_again (k : nat) (t : tree) : touch k (touch k t) = touch k t.
Proof.
  pose proof (touch_has_file k t) as H.
  destruct (touch k t) as [files subs] eqn:E. cbn [touch files_of] in *.
  now rewrite H.
Qed.

Lemma touch_subdirs (k : nat) (t : tree) :
  subdirs_of (touch k t) = subdirs_of t.
Proof. destruct t; reflexivity. Qed.

Lemma in_written (t : tree) (r : string) (ws : list string) (x : string) :
  In (r, ws) (listing t) -> In x ws -> In x (written t).
Proof.
  intros Hin Hx. unfold written. apply in_flat_map. now exists (r, ws).
Qed.


(* ================================================================= *)
(** ** Runs of the script *)

(** What a run that ends normally has done. *)
Lemma main_exited (w w1 : world) (tr : list event) :
  main w = (Exited, tr, w1) ->
  can_open w = true /\
  cwd w1 = touch (slot w) (cwd w) /\
  tr = trace_of (listing (cwd w1)) /\
  stored w1 = text (cwd w1).
Proof.
  unfold main. destruct (can_open w); [|discriminate].
  intros E. injection E as <- <-. now repeat split.
Qed.






(* ================================================================= *)
(** ** Writes and lines *)


Lemma count_nl_append (a b : string) :
  count_nl (a +++ b) = count_nl a + count_nl b.
Proof. induction a as [|x r IH]; simpl; [reflexivity | rewrite IH; lia]. Qed.

Lemma count_nl_spaces (n : nat) : count_nl (spaces n) = 0.
Proof. unfold spaces. induction n as [|n IH]; simpl; [reflexivity | exact IH]. Qed.








(* ================================================================= *)
(** ** The properties of the specification *)

(** C1.  In a well-formed tree, a directory whose path from the root goes
    through an excluded name (the excluded directory itself or anything
    beneath it) is never scanned and never yielded by the walk; and every
    block of lines in the output is the block of a directory reached by
    names that are all allowed, made of that directory's line and of the
    lines of the files directly in it.  So nothing of an excluded subtree,
    directory or file, has a line. *)
Theorem excluded_subtree_absent (t : tree) (p : list string) (d : tree) :
  wf t = true -> resolve t p = Some d -> allowed p = false ->
  ~ In (path_of p) (visited t) /\
  ~ In (Scan (path_of p)) (trace_of (listing t)) /\
  (forall r ws,
      In (r, ws) (listing t) ->
      exists q e,
        q <> p /\ resolve t q = Some e /\ allowed q = true /\
        r = path_of q /\
        ws = dir_line q :: map (file_line (length q)) (files_of e)).
Proof.
  intros Hwf Hr Ha.
  assert (Hno : ~ In (path_of p) (visited t)).
  { intros Hin. apply (visited_path t p d Hwf Hr) in Hin. congruence. }
  split; [exact Hno|]. split.
  - intros Hin. apply in_trace_scan in Hin. exact (Hno Hin).
  - intros r ws Hin.
    apply (listing_sound t r ws Hwf) in Hin as (q & e & Hq & Haq & _ & E & Ews).
    exists q, e. repeat split; try assumption. intros ->. congruence.
Qed.




(** C5.  A run that ends normally leaves a world in which a second run makes
    the same scans and writes and leaves the same world: the tree is not
    changed by the second [open], and the file holds after the second run
    what it held after the first. *)
Theorem rerun_same_output (w w1 : world) (tr : list event) :
  main w = (Exited, tr, w1) -> main w1 = (Exited, tr, w1).
Proof.
  unfold main. destruct (can_open w) eqn:Ec; [|discriminate].
  intros E. injection E as <- <-.
  unfold can_open in *. cbn [cwd writable slot stored].
  rewrite touch_subdirs, Ec, touch_again. reflexivity.
Qed.

(** C6.  When [open] fails, the run ends with the error, having scanned no
    directory and written no line, and the world is as it was. *)
Theorem open_failure (w : world) :
  can_open w = false -> main w = (Raised_OSError, [], w).
Proof. unfold main. now intros ->. Qed.

(** C7, as the specification has it, fails: in an empty working directory
    the script first creates its output file, and the walk then lists it. *)
Lemma empty_directory_counterexample :
  cwd empty_world = Node [] [] /\ can_open empty_world = true /\
  stored (snd (main empty_world))
  = "./" +++ nl +++ "  project_structure.txt" +++ nl /\
  stored (snd (main empty_world)) <> "./" +++ nl.
Proof.
  split; [reflexivity|]. split; [reflexivity|]. split; [reflexivity|].
  vm_compute. discriminate.
Qed.

(** C7, amended.  Run in a working directory with no subdirectory and no
    file, where it may write, the script scans the root once and writes two
    lines, the root's and, two spaces in, that of its own output file, which
    [open] has created there before the walk; a root the walk finds with no
    subdirectory and no file gets the single line of the root. *)
Theorem empty_directory_output (w : world) :
  cwd w = Node [] [] -> writable w = true ->
  main w =
    (Exited,
     [Scan "."; Write ("./" +++ nl); Write ("  project_structure.txt" +++ nl)],
     World (Node ["project_structure.txt"] []) true (slot w)
           ("./" +++ nl +++ "  project_structure.txt" +++ nl)) /\
  written (Node [] []) = ["./" +++ nl].
Proof.
  intros Ht Hw. split; [|reflexivity].
  unfold main, can_open. rewrite Ht, Hw. cbn [subdirs_of map existsb negb andb].
  assert (touch (slot w) (Node [] []) = Node ["project_structure.txt"] []) as ->.
  { unfold touch. cbn [existsb]. now rewrite firstn_nil, skipn_nil. }
  reflexivity.
Qed.

(** C8.  In a well-formed tree, a file whose name is one of the excluded
    names, directly in a directory reached through allowed names, has its
    line in the block of that directory and so in the output: the names of
    files are not matched against the exclusion list. *)
Theorem excluded_file_name_listed
        (t : tree) (p : list string) (d : tree) (f : string) :
  wf t = true -> resolve t p = Some d -> allowed p = true ->
  In f (files_of d) -> excluded f = true ->
  (exists lines,
      In (path_of p, dir_line p :: lines) (listing t) /\
      In (spaces (2 * (length p + 1)) +++ f +++ nl) lines) /\
  In (spaces (2 * (length p + 1)) +++ f +++ nl) (written t).
Proof.
  intros Hwf Hr Ha Hf _.
  pose proof (listing_complete t p d Hwf Hr Ha) as Hin.
  fold (file_line (length p) f). split.
  - eexists. split; [exact Hin | now apply in_map].
  - eapply in_written; [exact Hin|]. right. now apply in_map.
Qed.

(** C9.  Whatever the tree, the first directory the walk yields is the root,
    under the path string of one dot, whose base name is the dot and whose
    level is 0, and the first line written is the dot and a slash with no
    indent.  The tree has no name for its root: the script never learns the
    name of the working directory, and the exclusion list is only applied to
    the names of subdirectories. *)
Theorem root_line_first (t : tree) :
  (exists file_lines rest,
      listing t = (".", ("./" +++ nl) :: file_lines) :: rest) /\
  (exists more, written t = ("./" +++ nl) :: more) /\
  (exists more,
      trace_of (listing t) = Scan "." :: Write ("./" +++ nl) :: more) /\
  basename "." = "." /\ count_sep "." = 0.
Proof.
  destruct (walk_head loop_body "." t) as [rest E].
  unfold written, listing. rewrite E. repeat split; repeat eexists.
Qed.

(** C10.  In a well-formed tree, for a directory reached through allowed
    names, the listing splits around its block: the output is the lines of
    the blocks before, then the directory's line followed at once by the
    lines of all its files and nothing else, then the lines of the blocks
    after; and what comes after is either nothing or begins with the line of
    another directory. *)
Theorem file_lines_contiguous (t : tree) (p : list string) (d : tree) :
  wf t = true -> resolve t p = Some d -> allowed p = true ->
  exists before after,
    listing t
    = before
      ++ (path_of p, dir_line p :: map (file_line (length p)) (files_of d))
      :: after /\
    written t
    = flat_map snd before
      ++ (dir_line p :: map (file_line (length p)) (files_of d))
      ++ flat_map snd after /\
    (flat_map snd after = [] \/
     exists q e rest,
       q <> p /\ resolve t q = Some e /\ allowed q = true /\
       flat_map snd after = dir_line q :: rest).
Proof.
  intros Hwf Hr Ha.
  pose proof (listing_complete t p d Hwf Hr Ha) as Hin.
  apply in_split in Hin as (before & after & E).
  exists before, after. split; [exact E|]. split.
  - unfold written. rewrite E, flat_map_app. reflexivity.
  - destruct after as [|[r ws] after']; [now left | right].
    assert (Hx : In (r, ws) (listing t)).
    { rewrite E. apply in_or_app. right. right. now left. }
    apply (listing_sound t r ws Hwf) in Hx as (q & e & Hq & Haq & _ & -> & ->).
    exists q, e. eexists. repeat split; try eassumption.
    intros ->. pose proof (visited_NoDup t Hwf) as Hnd.
    unfold visited in Hnd. rewrite E, map_app in Hnd. simpl in Hnd.
    apply NoDup_remove_2 in Hnd. apply Hnd.
    apply in_or_app. right. now left.
Qed.

(* ================================================================= *)
(** ** The properties at work on the sample tree *)

(** What the loop writes over the tree of the example of the specification,
    and over the sample tree. *)
Example text_of_spec_example :
  text (Node [] [("venv", Node [] []); ("src", Node ["main.py"] [])])
  = "./" +++ nl +++ "  src/" +++ nl +++ "    main.py" +++ nl.
Proof. reflexivity. Qed.

Example listing_of_sample :
  listing sample
  = [(".", ["./" +++ nl; "  README.md" +++ nl]);
     ("./src", ["  src/" +++ nl; "    main.py" +++ nl; "    venv" +++ nl]);
     ("./src/core", ["    core/" +++ nl])].
Proof. reflexivity. Qed.

Lemma excluded_subtree_absent_witness :
  wf sample = true /\
  resolve sample ["venv"; "lib"] = Some (Node [] []) /\
  allowed ["venv"; "lib"] = false /\
  ~ In "./venv/lib" (visited sample).
Proof.
  split; [reflexivity|]. split; [reflexivity|]. split; [reflexivity|].
  exact (proj1 (excluded_subtree_absent sample ["venv"; "lib"] (Node [] [])
                  eq_refl eq_refl eq_refl)).
Defined.




Lemma rerun_same_output_witness :
  main (snd (main sample_world))
  = (Exited, snd (fst (main sample_world)), snd (main sample_world)).
Proof. apply (rerun_same_output sample_world). reflexivity. Defined.

Lemma open_failure_witness :
  can_open locked_world = false /\
  main locked_world = (Raised_OSError, [], locked_world).
Proof. split; [reflexivity | apply open_failure; reflexivity]. Defined.

Lemma empty_directory_output_witness :
  stored (snd (main empty_world))
  = "./" +++ nl +++ "  project_structure.txt" +++ nl.
Proof.
  rewrite (proj1 (empty_directory_output empty_world eq_refl eq_refl)).
  reflexivity.
Defined.

Lemma excluded_file_name_listed_witness :
  wf sample = true /\ allowed ["src"] = true /\ excluded "venv" = true /\
  In ("    venv" +++ nl) (written sample).
Proof.
  split; [reflexivity|]. split; [reflexivity|]. split; [reflexivity|].
  exact (proj2 (excluded_file_name_listed sample ["src"]
                  (Node ["main.py"; "venv"]
                        [("static", Node ["a.css"] []); ("core", Node [] [])])
                  "venv" eq_refl eq_refl eq_refl
                  (or_intror (or_introl eq_refl)) eq_refl)).
Defined.

Lemma file_lines_contiguous_witness :
  wf sample = true /\ allowed ["src"] = true /\
  exists before after,
    listing sample
    = before
      ++ ("./src", [("  src/" +++ nl); ("    main.py" +++ nl); ("    venv" +++ nl)])
      :: after /\
    written sample
    = flat_map snd before
      ++ [("  src/" +++ nl); ("    main.py" +++ nl); ("    venv" +++ nl)]
      ++ flat_map snd after.
Proof.
  split; [reflexivity|]. split; [reflexivity|].
  destruct (file_lines_contiguous sample ["src"]
              (Node ["main.py"; "venv"]
                    [("static", Node ["a.css"] []); ("core", Node [] [])])
              eq_refl eq_refl eq_refl) as (before & after & H1 & H2 & _).
  exists before, after. split; [exact H1 | exact H2].
Defined.

(* ================================================================= *)
(** ** More facts about the walk *)

Lemma find_sub_NoDup (subs : list (string * tree)) (n : string) (t : tree) :
  NoDup (map fst subs) -> In (n, t) subs -> find_sub n subs = Some t.
Proof.
  induction subs as [|[m u] rest IH]; simpl; intros Hnd Hin; [contradiction|].
  inversion Hnd as [|? ? Hm Hrest]; subst.
  destruct Hin as [E | Hin].
  - injection E as -> ->. now rewrite String.eqb_refl.
  - destruct (String.eqb_spec m n) as [->|_]; [|now apply IH].
    exfalso. apply Hm. now apply (in_map fst) in Hin.
Qed.

Lemma flat_map_flat_map {A B C : Type}
      (f : A -> list B) (g : B -> list C) (l : list A) :
  flat_map g (flat_map f l) = flat_map (fun a => flat_map g (f a)) l.
Proof.
  induction l as [|a r IH]; simpl; [reflexivity|].
  now rewrite flat_map_app, IH.
Qed.

Lemma flat_map_ext_in {A B : Type} (f g : A -> list B) (l : list A) :
  (forall a, In a l -> f a = g a) -> flat_map f l = flat_map g l.
Proof.
  induction l as [|a r IH]; simpl; intros H; [reflexivity|].
  rewrite (H a (or_introl eq_refl)), IH; [reflexivity|].
  intros b Hb. apply H. now right.
Qed.

Lemma map_flat_map {A B C : Type}
      (f : B -> C) (g : A -> list B) (l : list A) :
  map f (flat_map g l) = flat_map (fun a => map f (g a)) l.
Proof.
  induction l as [|a r IH]; simpl; [reflexivity|].
  now rewrite map_app, IH.
Qed.

(** Going down into the names that are kept, each looked up in the
    directory, is going down into the subdirectories that are kept. *)
Lemma kept_names_kept_subs {B : Type}
      (subs : list (string * tree)) (g : string -> tree -> list B) :
  NoDup (map fst subs) ->
  flat_map
    (fun d => match find_sub d subs with
              | Some t' => g d t'
              | None => []
              end)
    (filter (fun d => negb (excluded d)) (map fst subs))
  = flat_map
      (fun e => if excluded (fst e) then [] else g (fst e) (snd e)) subs.
Proof.
  intros Hnd.
  assert (Hall : forall l,
             (forall e, In e l -> find_sub (fst e) subs = Some (snd e)) ->
             flat_map
               (fun d => match find_sub d subs with
                         | Some t' => g d t'
                         | None => []
                         end)
               (filter (fun d => negb (excluded d)) (map fst l))
             = flat_map
                 (fun e => if excluded (fst e) then [] else g (fst e) (snd e)) l).
  { induction l as [|[n t'] rest IH]; intros Hl; [reflexivity|].
    pose proof (Hl (n, t') (or_introl eq_refl)) as Hn. cbn [fst snd] in Hn.
    cbn [map filter flat_map fst snd].
    rewrite <- IH by (intros e He; apply Hl; now right).
    destruct (excluded n); cbn [negb]; [reflexivity|].
    cbn [flat_map]. now rewrite Hn. }
  apply Hall. intros [n t'] Hin. now apply find_sub_NoDup.
Qed.

(** From any path it can stand at, the walk writes what [render] gives for
    the level and the base name of that path. *)
Lemma walk_render (t : tree) :
  forall top,
    wf t = true -> top_ok top ->
    flat_map snd (walk loop_body top t)
    = render (count_sep top) (basename top) t.
Proof.
  induction t as [files subs IH] using tree_induction.
  intros top Hwf Ht. rewrite walk_unfold.
  pose proof (wf_node _ _ Hwf) as (_ & Hd & Hnd & Hs).
  rewrite Forall_forall in IH. rewrite forallb_forall in Hd.
  cbn [flat_map fst snd loop_body render].
  rewrite !indent_spaces. cbn [app]. f_equal.
  replace (map (fun file => spaces (2 * (count_sep top + 1)) +++ file +++ nl) files)
    with (map (file_line (count_sep top)) files) by reflexivity.
  f_equal. rewrite flat_map_flat_map.
  rewrite <- (kept_names_kept_subs subs
                (fun d t' => render (S (count_sep top)) d t'))
    by (now apply NoDup_app_remove_l in Hnd).
  apply flat_map_ext_in. intros d Hin. apply filter_In in Hin as [Hin _].
  destruct (find_sub d subs) as [t'|] eqn:Ef; [|reflexivity].
  pose proof (find_sub_in _ _ _ Ef) as Hsub.
  pose proof (IH (d, t') Hsub (join top d) (Hs d t' Hsub)
                 (join_top_ok top d Ht (Hd d Hin))) as E.
  cbn [snd] in E. rewrite E.
  rewrite (join_name top d Ht (Hd d Hin)).
  pose proof (proj1 (name_ok_iff d) (Hd d Hin)) as [_ Hc].
  rewrite basename_append by exact Hc.
  rewrite count_sep_append. simpl count_sep. rewrite Hc.
  f_equal. lia.
Qed.

Lemma erase_names (subs : list (string * tree)) :
  map fst
      (flat_map
         (fun e => if excluded (fst e) then [] else [(fst e, erase (snd e))])
         subs)
  = filter (fun d => negb (excluded d)) (map fst subs).
Proof.
  induction subs as [|[n t] rest IH]; [reflexivity|].
  cbn [flat_map map filter fst snd].
  destruct (excluded n); cbn [negb app map fst]; now rewrite IH.
Qed.

Lemma find_sub_erase (subs : list (string * tree)) (d : string) :
  excluded d = false ->
  find_sub d
    (flat_map
       (fun e => if excluded (fst e) then [] else [(fst e, erase (snd e))])
       subs)
  = option_map erase (find_sub d subs).
Proof.
  intros Hd. induction subs as [|[n t] rest IH]; [reflexivity|].
  cbn [flat_map find_sub fst snd].
  destruct (String.eqb_spec n d) as [->|Hne].
  - rewrite Hd. cbn [app find_sub]. now rewrite String.eqb_refl.
  - destruct (excluded n); cbn [app find_sub]; [exact IH|].
    destruct (String.eqb_spec n d); [contradiction | exact IH].
Qed.

Lemma filter_twice {A : Type} (f : A -> bool) (l : list A) :
  filter f (filter f l) = filter f l.
Proof. apply forallb_filter_id, forallb_filter. Qed.

(** The walk of the tree without its pruned subdirectories is the walk of
    the tree. *)
Lemma walk_erase (t : tree) :
  forall top, walk loop_body top (erase t) = walk loop_body top t.
Proof.
  induction t as [files subs IH] using tree_induction.
  intros top. cbn [erase]. rewrite !walk_unfold, erase_names.
  cbn [loop_body fst snd]. rewrite filter_twice. f_equal.
  apply flat_map_ext_in. intros d Hin. apply filter_In in Hin as [_ Hex].
  apply negb_true_iff in Hex. rewrite (find_sub_erase subs d Hex).
  destruct (find_sub d subs) as [t'|] eqn:Ef; [|reflexivity].
  cbn [option_map]. rewrite Forall_forall in IH.
  exact (IH (d, t') (find_sub_in _ _ _ Ef) (join top d)).
Qed.

(** The walk of a directory reached through allowed names is one segment of
    the walk of the tree, and a segment that comes after the block of the
    starting directory when the path is not empty. *)
Lemma walk_segment (p : list string) :
  forall top t d,
    resolve t p = Some d -> allowed p = true ->
    exists before after,
      walk loop_body top t
      = before ++ walk loop_body (path_from top p) d ++ after /\
      (p <> [] -> exists more, before = (top, block_at top t) :: more).
Proof.
  induction p as [|n q IH]; intros top t d Hr Ha.
  - injection Hr as <-. exists [], []. split; [|congruence].
    cbn [path_from fold_left app]. now rewrite app_nil_r.
  - destruct t as [files subs]. cbn [resolve subdirs_of] in Hr.
    destruct (find_sub n subs) as [t'|] eqn:Ef; [|discriminate].
    cbn [allowed forallb] in Ha. apply andb_true_iff in Ha as [Hn Hq].
    destruct (IH (join top n) t' d Hr Hq) as (bef & aft & E & _).
    assert (Hin : In n (fst (loop_body top (map fst subs) files))).
    { cbn [loop_body fst]. apply filter_In.
      split; [eapply find_sub_name; eauto | exact Hn]. }
    apply in_split in Hin as (a & b & Hab).
    rewrite walk_unfold, Hab, flat_map_app. cbn [flat_map].
    rewrite Ef, E.
    set (F := fun d0 : string =>
                match find_sub d0 subs with
                | Some t0 => walk loop_body (join top d0) t0
                | None => []
                end).
    exists ((top, block_at top (Node files subs)) :: flat_map F a ++ bef),
           (aft ++ flat_map F b).
    split.
    + cbn [path_from fold_left]. unfold block_at. cbn [subdirs_of files_of app].
      f_equal. now rewrite <- !app_assoc.
    + intros _. eexists. reflexivity.
Qed.

Lemma resolve_app (t : tree) (p q : list string) (d : tree) :
  resolve t (p ++ q) = Some d ->
  exists e, resolve t p = Some e /\ resolve e q = Some d.
Proof.
  revert t. induction p as [|n r IH]; intros t Hr.
  - exists t. now split.
  - cbn [app resolve] in *.
    destruct (find_sub n (subdirs_of t)) as [t'|]; [|discriminate].
    now apply IH.
Qed.

Lemma spaces_add (a b : nat) : spaces (a + b) = spaces a +++ spaces b.
Proof. apply str_mul_add. Qed.

(** Deeper by [k] levels, [render] gives the same lines behind [2 * k] more
    spaces. *)
Lemma render_deeper (t : tree) :
  forall k depth name,
    render (k + depth) name t
    = map (fun l => spaces (2 * k) +++ l) (render depth name t).
Proof.
  induction t as [files subs IH] using tree_induction.
  intros k depth name. cbn [render map]. f_equal.
  - replace (2 * (k + depth)) with (2 * k + 2 * depth) by lia.
    now rewrite spaces_add, append_assoc.
  - rewrite map_app, map_map. f_equal.
    + apply map_ext. intros f. unfold file_line.
      replace (2 * (k + depth + 1)) with (2 * k + 2 * (depth + 1)) by lia.
      now rewrite spaces_add, append_assoc.
    + rewrite map_flat_map.
      apply flat_map_ext_in. intros [n t'] Hin. cbn [fst snd].
      destruct (excluded n); [reflexivity|].
      rewrite Forall_forall in IH.
      pose proof (IH (n, t') Hin k (S depth) n) as E. cbn [snd] in E.
      rewrite <- E. f_equal. lia.
Qed.

Lemma render_tail (depth : nat) (name name' : string) (t : tree) :
  render depth name t
  = (spaces (2 * depth) +++ name +++ "/" +++ nl) :: tl (render depth name' t).
Proof. destruct t; reflexivity. Qed.

Lemma in_trace_write (l : list (string * list string)) (x : string) :
  In (Write x) (trace_of l) <-> exists r ws, In (r, ws) l /\ In x ws.
Proof.
  unfold trace_of. rewrite in_flat_map. split.
  - intros ([r ws] & Hin & [E | H]); [discriminate|].
    apply in_map_iff in H as (y & E & Hy). injection E as ->.
    now exists r, ws.
  - intros (r & ws & Hin & Hx). exists (r, ws). split; [exact Hin|].
    right. now apply in_map.
Qed.

(** A line read back from a text holds at most one newline. *)
Lemma readlines_one_newline (s : string) :
  Forall (fun l => count_nl l <= 1) (readlines s).
Proof.
  induction s as [|c r IH]; cbn [readlines]; [constructor|].
  destruct (Ascii.eqb c newline) eqn:Ec.
  - constructor; [|exact IH]. cbn [count_nl]. rewrite Ec. simpl. lia.
  - destruct (readlines r) as [|h q].
    + constructor; [|constructor]. cbn [count_nl]. rewrite Ec. simpl. lia.
    + inversion IH as [|? ? Hh Hq]; subst.
      constructor; [|exact Hq]. cbn [count_nl]. rewrite Ec. simpl. exact Hh.
Qed.

Lemma count_sep_last (p : list string) :
  forallb name_ok p = true -> count_sep (last p ".") = 0.
Proof.
  induction p as [|n q IH]; [reflexivity|]. intros H.
  cbn [forallb] in H. apply andb_true_iff in H as [Hn Hq].
  destruct q as [|m q']; [now apply name_ok_iff in Hn | exact (IH Hq)].
Qed.



Lemma listing_erase (t : tree) : listing (erase t) = listing t.
Proof. apply walk_erase. Qed.

Lemma tl_map {A B : Type} (f : A -> B) (l : list A) :
  tl (map f l) = map f (tl l).
Proof. destruct l; reflexivity. Qed.

(* ================================================================= *)
(** ** Further properties of the script *)


(** X2.  In a well-formed tree, a listed file whose name holds a newline
    breaks that correspondence: the lines read back from the output file
    are not the writes of the script. *)
Theorem newline_breaks_lines
        (t : tree) (p : list string) (d : tree) (f : string) :
  wf t = true -> resolve t p = Some d -> allowed p = true ->
  In f (files_of d) -> plain f = false ->
  readlines (text t) <> written t.
Proof.
  intros Hwf Hr Ha Hf Hpl E.
  pose proof (listing_complete t p d Hwf Hr Ha) as Hin.
  assert (Hx : In (file_line (length p) f) (written t)).
  { eapply in_written; [exact Hin|]. right. now apply in_map. }
  rewrite <- E in Hx.
  pose proof (readlines_one_newline (text t)) as Hall.
  rewrite Forall_forall in Hall. specialize (Hall _ Hx).
  unfold file_line in Hall.
  rewrite !count_nl_append, count_nl_spaces in Hall.
  unfold plain in Hpl. apply Nat.eqb_neq in Hpl.
  change (count_nl nl) with 1 in Hall. lia.
Qed.

(** X3.  Every run that ends normally lists its own output file: the block
    of the root, which begins with the root's line, holds the line of
    [project_structure.txt] two spaces in, and the run has written it. *)
Theorem output_lists_itself (w w1 : world) (tr : list event) :
  main w = (Exited, tr, w1) ->
  In (Write ("  project_structure.txt" +++ nl)) tr /\
  exists lines rest,
    listing (cwd w1) = (".", ("./" +++ nl) :: lines) :: rest /\
    In ("  project_structure.txt" +++ nl) lines.
Proof.
  intros Hm. apply main_exited in Hm as (_ & Hc & -> & _).
  destruct (walk_head loop_body "." (cwd w1)) as [rest E].
  fold (listing (cwd w1)) in E.
  assert (Hf : In out_name (files_of (cwd w1))).
  { pose proof (touch_has_file (slot w) (cwd w)) as H. rewrite <- Hc in H.
    apply existsb_exists in H as (x & Hx & Ex).
    apply String.eqb_eq in Ex. now subst x. }
  assert (Hl : In ("  project_structure.txt" +++ nl)
                  (map (fun file => "  " +++ file +++ nl) (files_of (cwd w1)))).
  { exact (in_map (fun file => "  " +++ file +++ nl) _ _ Hf). }
  split.
  - apply in_trace_write. eexists _, _. split.
    + rewrite E. left. reflexivity.
    + right. exact Hl.
  - eexists _, rest. split; [exact E | exact Hl].
Qed.

(** X4.  Two trees that are the same once the pruned subdirectories are
    taken away give the same listing and the same output file: what lies in
    a pruned directory, and whether there is one, has no effect. *)
Theorem excluded_contents_irrelevant (t1 t2 : tree) :
  erase t1 = erase t2 -> listing t1 = listing t2 /\ text t1 = text t2.
Proof.
  intros E.
  assert (listing t1 = listing t2) as H.
  { now rewrite <- (listing_erase t1), <- (listing_erase t2), E. }
  split; [exact H|]. unfold text, written. now rewrite H.
Qed.


(** X6.  In a well-formed tree, the part of the output for a directory
    reached through allowed names and all that lies beneath it is one
    segment, and it is the output the loop gives on that directory alone,
    each line behind [2 * depth] more spaces, with the directory's name in
    the first line in place of the dot. *)
Theorem subtree_segment (t : tree) (p : list string) (d : tree) :
  wf t = true -> resolve t p = Some d -> allowed p = true ->
  exists pre post,
    written t
    = pre
      ++ (dir_line p
          :: map (fun l => spaces (2 * length p) +++ l) (tl (written d)))
      ++ post.
Proof.
  intros Hwf Hr Ha.
  destruct (resolve_wf t p d Hwf Hr) as [Hp Hwd].
  destruct (walk_segment p "." t d Hr Ha) as (before & after & E & _).
  exists (flat_map snd before), (flat_map snd after).
  unfold written at 1. unfold listing. rewrite E, !flat_map_app.
  f_equal. f_equal.
  rewrite (walk_render d _ Hwd (path_from_top_ok "." p top_ok_dot Hp)).
  unfold written, listing. rewrite (walk_render d "." Hwd top_ok_dot).
  rewrite (path_from_count "." p top_ok_dot Hp).
  rewrite (path_from_basename "." p top_ok_dot Hp).
  change (count_sep "." + length p) with (length p).
  change (basename ".") with ".".
  rewrite (render_tail (length p) (last p ".") "." d).
  unfold dir_line. f_equal.
  replace (length p) with (length p + 0) at 1 by lia.
  now rewrite render_deeper, tl_map.
Qed.

(** X7.  In a well-formed tree, a directory is listed before each of its
    subdirectories: the block that begins with the line of the directory at
    [p] comes, in the listing, before the block that begins with the line of
    its subdirectory [n]. *)
Theorem parent_before_child
        (t : tree) (p : list string) (n : string) (d : tree) :
  wf t = true -> resolve t (p ++ [n]) = Some d ->
  allowed (p ++ [n]) = true ->
  exists l1 l2 l3 b1 b2,
    listing t
    = l1 ++ (path_of p, dir_line p :: b1)
         :: l2 ++ (path_of (p ++ [n]), dir_line (p ++ [n]) :: b2) :: l3.
Proof.
  intros Hwf Hr Ha.
  destruct (resolve_wf t _ d Hwf Hr) as [Hpn _].
  destruct (resolve_app t p [n] d Hr) as (e & Hre & Hrd).
  unfold allowed in Ha. rewrite forallb_app in Ha.
  apply andb_true_iff in Ha as [Hap Han].
  destruct (resolve_wf t p e Hwf Hre) as [Hp _].
  destruct (walk_segment p "." t e Hre Hap) as (before & after & E & _).
  destruct (walk_segment [n] (path_from "." p) e d Hrd Han)
    as (bef & aft & E' & Hbef).
  destruct Hbef as [more ->]; [discriminate|].
  destruct (walk_head loop_body (path_from (path_from "." p) [n]) d)
    as [rest Eh].
  rewrite Eh in E'. unfold listing. rewrite E, E'.
  replace (path_from (path_from "." p) [n]) with (path_of (p ++ [n]))
    by (unfold path_of; now rewrite path_from_snoc).
  fold (path_of p). fold (block_at (path_of (p ++ [n])) d).
  rewrite (block_at_path p e Hp), (block_at_path (p ++ [n]) d Hpn).
  exists before, more, (rest ++ aft ++ after),
         (map (file_line (length p)) (files_of e)),
         (map (file_line (length (p ++ [n]))) (files_of d)).
  repeat (rewrite <- app_assoc || rewrite <- app_comm_cons). reflexivity.
Qed.

(** X8.  For a path the walk can stand at and a legal name, the path the
    walk builds for the subdirectory has the name as its base name and one
    slash more, and the walk can stand at it in turn: the script prints the
    subdirectory under its own name, one level deeper than its parent. *)
Theorem basename_join_roundtrip (top n : string) :
  top_ok top -> name_ok n = true ->
  basename (join top n) = n /\
  count_sep (join top n) = S (count_sep top) /\
  top_ok (join top n).
Proof.
  intros Ht Hn. pose proof (join_top_ok top n Ht Hn) as Hj.
  rewrite (join_name top n Ht Hn) in *.
  apply name_ok_iff in Hn as [_ Hc]. repeat split; try apply Hj.
  - now apply basename_append.
  - rewrite count_sep_append. simpl count_sep. rewrite Hc. lia.
Qed.

(** X9.  In a well-formed tree, every block of the listing is one line with
    exactly one slash, the directory's, followed by lines without any
    slash, the files': the output shows names, never paths, and the slash
    tells the directories from the files. *)
Theorem slash_marks_directories
        (t : tree) (r : string) (ws : list string) :
  wf t = true -> In (r, ws) (listing t) ->
  exists dl fls,
    ws = dl :: fls /\ count_sep dl = 1 /\
    Forall (fun l => count_sep l = 0) fls.
Proof.
  intros Hwf Hin.
  apply (listing_sound t r ws Hwf) in Hin as (q & e & Hq & _ & Hoq & _ & ->).
  eexists _, _. split; [reflexivity|]. split.
  - unfold dir_line. rewrite !count_sep_append, count_sep_spaces.
    rewrite (count_sep_last q Hoq). reflexivity.
  - apply Forall_forall. intros l Hl.
    apply in_map_iff in Hl as (f & <- & Hf). rewrite count_sep_file_line.
    destruct (resolve_wf t q e Hwf Hq) as [_ Hwe].
    destruct e as [files subs]. apply wf_node in Hwe as (Hok & _).
    rewrite forallb_forall in Hok. specialize (Hok f Hf).
    now apply name_ok_iff in Hok.
Qed.

(* ================================================================= *)
(** ** The further properties at work *)


Lemma newline_breaks_lines_witness :
  wf broken = true /\ plain ("two" +++ nl +++ "lines") = false /\
  readlines (text broken) <> written broken.
Proof.
  split; [reflexivity|]. split; [reflexivity|].
  apply (newline_breaks_lines broken [] broken ("two" +++ nl +++ "lines"));
    try reflexivity.
  now left.
Defined.

Lemma output_lists_itself_witness :
  In (Write ("  project_structure.txt" +++ nl)) (snd (fst (main sample_world))).
Proof.
  apply (output_lists_itself sample_world (snd (main sample_world))
                             (snd (fst (main sample_world)))).
  reflexivity.
Defined.

Lemma excluded_contents_irrelevant_witness :
  sample <> sample' /\ erase sample = erase sample' /\
  text sample = text sample'.
Proof.
  split; [discriminate|]. split; [reflexivity|].
  apply excluded_contents_irrelevant. reflexivity.
Defined.


Lemma subtree_segment_witness :
  wf sample = true /\ allowed ["src"] = true /\
  exists pre post,
    written sample
    = pre
      ++ (("  src/" +++ nl)
          :: map (fun l => "  " +++ l)
                 (tl (written
                        (Node ["main.py"; "venv"]
                              [("static", Node ["a.css"] []);
                               ("core", Node [] [])]))))
      ++ post.
Proof.
  split; [reflexivity|]. split; [reflexivity|].
  exact (subtree_segment sample ["src"]
           (Node ["main.py"; "venv"]
                 [("static", Node ["a.css"] []); ("core", Node [] [])])
           eq_refl eq_refl eq_refl).
Defined.

Lemma parent_before_child_witness :
  wf sample = true /\ allowed ["src"; "core"] = true /\
  exists l1 l2 l3 b1 b2,
    listing sample
    = l1 ++ ("./src", ("  src/" +++ nl) :: b1)
         :: l2 ++ ("./src/core", ("    core/" +++ nl) :: b2) :: l3.
Proof.
  split; [reflexivity|]. split; [reflexivity|].
  exact (parent_before_child sample ["src"] "core" (Node [] [])
           eq_refl eq_refl eq_refl).
Defined.

Lemma basename_join_roundtrip_witness :
  name_ok "core" = true /\
  basename (join "./src" "core") = "core" /\
  count_sep (join "./src" "core") = 2.
Proof.
  split; [reflexivity|].
  assert (top_ok "./src") as Ht by (split; [discriminate | reflexivity]).
  destruct (basename_join_roundtrip "./src" "core" Ht eq_refl) as (H1 & H2 & _).
  split; [exact H1 | exact H2].
Defined.

Lemma slash_marks_directories_witness :
  wf sample = true /\
  exists dl fls,
    ["  src/" +++ nl; "    main.py" +++ nl; "    venv" +++ nl] = dl :: fls /\
    count_sep dl = 1 /\ Forall (fun l => count_sep l = 0) fls.
Proof.
  split; [reflexivity|].
  apply (slash_marks_directories sample "./src"); [reflexivity|].
  right. left. reflexivity.
Defined.

